(** * Recording session state machine

    A shallow embedding of [src/context/RecordingContext.tsx]: the reducer
    [recordingReducer], its [initialState], and the commands that
    [RecordingProvider] hands to its consumers ([startRecording],
    [pauseRecording], [stopRecording], [addStep], [removeStep],
    [updateStep], [clearSteps], [updateHealingConfig]).

    JavaScript objects that the reducer merges with the spread operator
    (test steps, the healing configuration and their [Partial] versions) are
    finite maps from property names to values; the objects the reducer
    builds field by field are records.  The two effects of the source,
    [uuidv4()] and the clock ([new Date()], [Date.now()]), are threaded
    through a small state monad over a [World]. *)

From Stdlib Require Import Floats.
From stdpp Require Import base option list gmap strings pretty fin_maps.

Local Open Scope string_scope.
Local Open Scope list_scope.
Local Open Scope nat_scope.
Set Warnings "-register-all,-inexact-float".

(** ** Values and objects *)

(** Modelled from the spec: the enum [HealingStrategy] is declared in
    [../types], which is not among the sources.  The three members that
    [initialState] names are constructors of their own; the members the
    specification leaves out behind an ellipsis are covered by
    [OTHER_STRATEGY]. *)
Inductive HealingStrategy : Type :=
  | ATTRIBUTE_MATCHING
  | TEXT_CONTENT_MATCHING
  | POSITIONAL_MATCHING
  | OTHER_STRATEGY (member : string).

(** A JavaScript number is an IEEE 754 binary64 value; a decimal literal
    such as [0.8] denotes the nearest one. *)
Abbreviation number := float (only parsing).

(** The values a property of a step or of the healing configuration can
    hold.  The reducer never looks inside them, except for the [id] of a
    step, which it compares with [===]. *)
Inductive JsValue : Type :=
  | JsUndefined
  | JsNull
  | JsBoolean (b : bool)
  | JsNumber (x : number)
  | JsString (s : string)
  | JsStrategy (h : HealingStrategy)
  | JsArray (items : list JsValue)
  | JsObject (props : gmap string JsValue).

(** An object is the finite map of its own properties. *)
Abbreviation Obj := (gmap string JsValue) (only parsing).

(** [{ ...a, ...b }]: the properties of [b] override those of [a]. *)
Definition spread (a b : Obj) : Obj := b ∪ a.

(** [o.id === s] for a string [s]: a missing property reads as
    [undefined], and [===] between values of different types is false. *)
Definition id_is (o : Obj) (s : string) : bool :=
  match o !! "id" with
  | Some (JsString t) => bool_decide (t = s)
  | _ => false
  end.

(** ** The world: identifiers and time *)

(** A [Date] object wraps the time value it was created at. *)
Record Date : Type := mkDate { getTime : number }.

(** [uuid_source w k] is what the [k]-th call of [uuidv4()] returns and
    [clock_source w k] what the [k]-th reading of the clock returns;
    [uuid_calls] and [clock_calls] count the calls made so far. *)
Record World : Type := mkWorld {
  uuid_source : nat → string;
  uuid_calls : nat;
  clock_source : nat → number;
  clock_calls : nat
}.

Definition Eff (A : Type) : Type := World → A * World.

#[export] Instance Eff_ret : MRet Eff := λ A a w, (a, w).
#[export] Instance Eff_bind : MBind Eff :=
  λ A B f m w, let '(a, w') := m w in f a w'.

Definition uuidv4 : Eff string := λ w,
  (uuid_source w (uuid_calls w),
   mkWorld (uuid_source w) (S (uuid_calls w)) (clock_source w) (clock_calls w)).

Definition Date_now : Eff number := λ w,
  (clock_source w (clock_calls w),
   mkWorld (uuid_source w) (uuid_calls w) (clock_source w) (S (clock_calls w))).

Definition new_Date : Eff Date := t ← Date_now; mret (mkDate t).

(** The identifiers [uuidv4()] has returned so far, oldest first. *)
Definition issued (w : World) : list string :=
  uuid_source w <$> seq 0 (uuid_calls w).

(** ** The data model *)

Module Viewport.
Record t : Type := mk { width : number; height : number }.
End Viewport.

Module Metadata.
Record t : Type := mk {
  url : string;
  viewport : Viewport.t;
  createdAt : Date;
  lastModified : Date
}.
End Metadata.

Module GeneratedTest.
Record t : Type := mk {
  id : string;
  name : string;
  description : string;
  steps : list Obj;
  assertions : list Obj;
  metadata : Metadata.t
}.
End GeneratedTest.

Record RecordingState : Type := mkState {
  isRecording : bool;
  isPaused : bool;
  currentTest : option GeneratedTest.t;
  steps : list Obj;
  healingConfig : Obj
}.

Inductive RecordingAction : Type :=
  | START_RECORDING (testName url : string)
  | PAUSE_RECORDING
  | STOP_RECORDING
  | ADD_STEP (payload : Obj)
  | REMOVE_STEP (payload : string)
  | UPDATE_STEP (stepId : string) (updates : Obj)
  | CLEAR_STEPS
  | UPDATE_HEALING_CONFIG (payload : Obj)
  (** an action whose [type] is none of the eight above: the [default]
      branch of the reducer *)
  | UNRECOGNIZED (type : string).

Definition initialState : RecordingState := {|
  isRecording := false;
  isPaused := false;
  currentTest := None;
  steps := [];
  healingConfig :=
    {[ "enabledStrategies" :=
         JsArray [ JsStrategy ATTRIBUTE_MATCHING;
                   JsStrategy TEXT_CONTENT_MATCHING;
                   JsStrategy POSITIONAL_MATCHING ];
       "confidenceThreshold" := JsNumber 0.8%float;
       "maxRetryAttempts" := JsNumber 3%float;
       "fallbackTimeout" := JsNumber 5000%float ]}
|}.

(** ** The reducer *)

Definition recordingReducer (state : RecordingState) (action : RecordingAction)
  : Eff RecordingState :=
  match action with
  | START_RECORDING testName url =>
      i ← uuidv4;
      created ← new_Date;
      modified ← new_Date;
      let newTest := {|
        GeneratedTest.id := i;
        GeneratedTest.name := testName;
        GeneratedTest.description := "Generated test for " +:+ url;
        GeneratedTest.steps := [];
        GeneratedTest.assertions := [];
        GeneratedTest.metadata := {|
          Metadata.url := url;
          Metadata.viewport :=
            {| Viewport.width := 1920%float; Viewport.height := 1080%float |};
          Metadata.createdAt := created;
          Metadata.lastModified := modified
        |}
      |} in
      mret {| isRecording := true;
              isPaused := false;
              currentTest := Some newTest;
              steps := [];
              healingConfig := healingConfig state |}
  | PAUSE_RECORDING =>
      mret {| isRecording := isRecording state;
              isPaused := negb (isPaused state);
              currentTest := currentTest state;
              steps := steps state;
              healingConfig := healingConfig state |}
  | STOP_RECORDING =>
      mret {| isRecording := false;
              isPaused := false;
              currentTest := currentTest state;
              steps := steps state;
              healingConfig := healingConfig state |}
  | ADD_STEP payload =>
      mret {| isRecording := isRecording state;
              isPaused := isPaused state;
              currentTest := currentTest state;
              steps := steps state ++ [payload];
              healingConfig := healingConfig state |}
  | REMOVE_STEP payload =>
      mret {| isRecording := isRecording state;
              isPaused := isPaused state;
              currentTest := currentTest state;
              steps := filter (λ step, ¬ id_is step payload) (steps state);
              healingConfig := healingConfig state |}
  | UPDATE_STEP stepId updates =>
      mret {| isRecording := isRecording state;
              isPaused := isPaused state;
              currentTest := currentTest state;
              steps := (λ step, if id_is step stepId
                                then spread step updates
                                else step) <$> steps state;
              healingConfig := healingConfig state |}
  | CLEAR_STEPS =>
      mret {| isRecording := isRecording state;
              isPaused := isPaused state;
              currentTest := currentTest state;
              steps := [];
              healingConfig := healingConfig state |}
  | UPDATE_HEALING_CONFIG payload =>
      mret {| isRecording := isRecording state;
              isPaused := isPaused state;
              currentTest := currentTest state;
              steps := steps state;
              healingConfig := spread (healingConfig state) payload |}
  | UNRECOGNIZED _ => mret state
  end.

(** ** The commands of [RecordingProvider] *)

(** [dispatch] hands the action to the reducer together with the current
    state. *)
Definition dispatch (action : RecordingAction) (state : RecordingState)
  : Eff RecordingState :=
  recordingReducer state action.

Definition startRecording (testName url : string) :=
  dispatch (START_RECORDING testName url).

Definition pauseRecording := dispatch PAUSE_RECORDING.

Definition stopRecording := dispatch STOP_RECORDING.

Definition addStep (stepData : Obj) (state : RecordingState)
  : Eff RecordingState :=
  i ← uuidv4;
  now ← Date_now;
  let step := <["timestamp" := JsNumber now]> (<["id" := JsString i]> stepData) in
  dispatch (ADD_STEP step) state.

Definition removeStep (stepId : string) := dispatch (REMOVE_STEP stepId).

Definition updateStep (stepId : string) (updates : Obj) :=
  dispatch (UPDATE_STEP stepId updates).

Definition clearSteps := dispatch CLEAR_STEPS.

Definition updateHealingConfig (config : Obj) :=
  dispatch (UPDATE_HEALING_CONFIG config).

(** The closed set of commands, and sequences of them. *)
Inductive Command : Type :=
  | Start (testName url : string)
  | Pause
  | Stop
  | Add (stepData : Obj)
  | Remove (stepId : string)
  | Update (stepId : string) (updates : Obj)
  | Clear
  | UpdateHealing (config : Obj).

Definition call (c : Command) : RecordingState → Eff RecordingState :=
  match c with
  | Start testName url => startRecording testName url
  | Pause => pauseRecording
  | Stop => stopRecording
  | Add stepData => addStep stepData
  | Remove stepId => removeStep stepId
  | Update stepId updates => updateStep stepId updates
  | Clear => clearSteps
  | UpdateHealing config => updateHealingConfig config
  end.

Fixpoint run (cs : list Command) (state : RecordingState) : Eff RecordingState :=
  match cs with
  | [] => mret state
  | c :: cs' => state' ← call c state; run cs' state'
  end.

(** ** Observations on sessions *)

(** The identifiers of the steps in the ledger, in order. *)
Definition step_ids (s : RecordingState) : list (option JsValue) :=
  (λ step, step !! "id") <$> steps s.

(** The step that [addStep stepData] builds in the world [w]. *)
Definition added_step (stepData : Obj) (w : World) : Obj :=
  <["timestamp" := JsNumber (clock_source w (clock_calls w))]>
    (<["id" := JsString (uuid_source w (uuid_calls w))]> stepData).

(** The steps that the [addStep] calls of a command sequence build, in the
    order of the calls. *)
Fixpoint added_steps (cs : list Command) (s : RecordingState) (w : World)
  : list Obj :=
  match cs with
  | [] => []
  | c :: cs' =>
      let '(s1, w1) := call c s w in
      match c with
      | Add stepData => [added_step stepData w]
      | _ => []
      end ++ added_steps cs' s1 w1
  end.

(** The commands of the step ledger that add or remove a step. *)
Definition ledger_op (c : Command) : bool :=
  match c with
  | Add _ | Remove _ => true
  | _ => false
  end.

(** A command keeps ids when it is not an [updateStep] that supplies an
    [id] field. *)
Definition keeps_id (c : Command) : bool :=
  match c with
  | Update _ updates => if updates !! "id" is None then true else false
  | _ => true
  end.

(** The values a command obtains from [uuidv4()] and from the clock. *)
Definition reads (c : Command) (w : World) : list string * list number :=
  match c with
  | Start _ _ =>
      ([uuid_source w (uuid_calls w)],
       [clock_source w (clock_calls w); clock_source w (S (clock_calls w))])
  | Add _ =>
      ([uuid_source w (uuid_calls w)], [clock_source w (clock_calls w)])
  | _ => ([], [])
  end.

(** The [id] property that the [k]-th call of [uuidv4()] gives a step. *)
Definition id_value (source : nat → string) (k : nat) : option JsValue :=
  Some (JsString (source k)).

(** The current test, when there is one, carries an identifier that
    [uuidv4()] returned. *)
Definition test_id_issued (s : RecordingState) (w : World) : Prop :=
  ∀ t, currentTest s = Some t →
    ∃ k, k < uuid_calls w ∧ GeneratedTest.id t = uuid_source w k.

(** Every step of the ledger carries an identifier that [uuidv4()]
    returned. *)
Definition ledger_ids_issued (s : RecordingState) (w : World) : Prop :=
  Forall (λ step, ∃ k, k < uuid_calls w ∧ step !! "id" = id_value (uuid_source w) k)
    (steps s).

(** ** Sample worlds and sessions *)

(** A world whose identifier source never repeats itself. *)
Definition sample_world : World :=
  mkWorld (λ k, "uuid-" +:+ pretty k) 0 (λ k, 1000%float) 0.

(** A world whose identifier source differs from [sample_world]'s. *)
Definition other_world : World :=
  mkWorld (λ k, "other-" +:+ pretty k) 0 (λ k, 1000%float) 0.

(** A world that agrees with [sample_world] on the first identifier and on
    the clock, and on nothing else. *)
Definition replay_world : World :=
  mkWorld (λ k, if k is 0 then "uuid-0" else "later") 0 (λ k, 1000%float) 0.

Definition click_submit : Obj :=
  {[ "action" := JsString "click"; "selector" := JsString "#submit" ]}.

Definition type_user : Obj :=
  {[ "action" := JsString "type"; "selector" := JsString "#user";
     "value" := JsString "alice" ]}.

(** A session with a test and two recorded steps. *)
Definition sample_session : RecordingState * World :=
  run [ Start "Login flow" "https://app.test/login";
        Add click_submit; Add type_user ] initialState sample_world.

(** ** The context and its accessor *)

(** What a call under test either returns or throws. *)
Inductive Outcome (A : Type) : Type :=
  | Returned (a : A)
  | Thrown (message : string).
Arguments Returned {A} a.
Arguments Thrown {A} message.

(** The value [RecordingProvider] hands down: the state and the eight
    commands. *)
Module RecordingContextType.
Record t : Type := mk {
  state : RecordingState;
  startRecording : string → string → RecordingState → Eff RecordingState;
  pauseRecording : RecordingState → Eff RecordingState;
  stopRecording : RecordingState → Eff RecordingState;
  addStep : Obj → RecordingState → Eff RecordingState;
  removeStep : string → RecordingState → Eff RecordingState;
  updateStep : string → Obj → RecordingState → Eff RecordingState;
  clearSteps : RecordingState → Eff RecordingState;
  updateHealingConfig : Obj → RecordingState → Eff RecordingState
}.
End RecordingContextType.

(** The [value] of [RecordingContext.Provider] when the reducer holds
    [state]. *)
Definition RecordingProvider (state : RecordingState) : RecordingContextType.t := {|
  RecordingContextType.state := state;
  RecordingContextType.startRecording := startRecording;
  RecordingContextType.pauseRecording := pauseRecording;
  RecordingContextType.stopRecording := stopRecording;
  RecordingContextType.addStep := addStep;
  RecordingContextType.removeStep := removeStep;
  RecordingContextType.updateStep := updateStep;
  RecordingContextType.clearSteps := clearSteps;
  RecordingContextType.updateHealingConfig := updateHealingConfig
|}.

(** [useContext] reads the value of the nearest enclosing provider
    ([providers] lists the enclosing ones, nearest first), or the default
    the context was created with. *)
Definition useContext {V : Type} (default : V) (providers : list V) : V :=
  match providers with
  | value :: _ => value
  | [] => default
  end.

(** [RecordingContext] is created with the default [undefined]. *)
Definition useRecording (providers : list RecordingContextType.t)
  : Outcome RecordingContextType.t :=
  match useContext None (Some <$> providers) with
  | None => Thrown "useRecording must be used within a RecordingProvider"
  | Some context => Returned context
  end.

(** ** Classes of commands *)

(** How many times a command calls [uuidv4()] and reads the clock. *)
Definition uuid_draws (c : Command) : nat :=
  match c with
  | Start _ _ | Add _ => 1
  | _ => 0
  end.

Definition clock_draws (c : Command) : nat :=
  match c with
  | Start _ _ => 2
  | Add _ => 1
  | _ => 0
  end.

Definition is_start (c : Command) : bool :=
  match c with
  | Start _ _ => true
  | _ => false
  end.

Definition is_update_healing (c : Command) : bool :=
  match c with
  | UpdateHealing _ => true
  | _ => false
  end.

(** The commands that only touch the lifecycle flags. *)
Definition flag_command (c : Command) : bool :=
  match c with
  | Pause | Stop => true
  | _ => false
  end.

(** The commands that only touch the ledger or the healing configuration. *)
Definition content_command (c : Command) : bool :=
  match c with
  | Add _ | Remove _ | Update _ _ | Clear | UpdateHealing _ => true
  | _ => false
  end.

(** The commands that can only shrink or rewrite the ledger. *)
Definition shrinking_command (c : Command) : bool :=
  match c with
  | Remove _ | Update _ _ | Clear => true
  | _ => false
  end.

(** How many steps a command can add to the ledger. *)
Definition step_adds (c : Command) : nat :=
  match c with
  | Add _ => 1
  | _ => 0
  end.

(** * Properties *)

(** ** Sample runs *)

Example sample_session_ids :
  step_ids sample_session.1 = [Some (JsString "uuid-1"); Some (JsString "uuid-2")]
  ∧ GeneratedTest.id <$> currentTest sample_session.1 = Some "uuid-0"
  ∧ issued sample_session.2 = ["uuid-0"; "uuid-1"; "uuid-2"].
Proof. vm_compute. done. Qed.

(** Recording a click and a keystroke, then removing the click. *)
Example login_scenario :
  let s := (removeStep "uuid-1" sample_session.1 sample_session.2).1 in
  (λ step, step !! "action") <$> steps s = [Some (JsString "type")]
  ∧ GeneratedTest.name <$> currentTest s = Some "Login flow"
  ∧ (λ t, Metadata.url (GeneratedTest.metadata t)) <$> currentTest s
    = Some "https://app.test/login".
Proof. vm_compute. done. Qed.

(** ** Unfolding the commands *)

Ltac unfold_eff :=
  unfold call, startRecording, pauseRecording, stopRecording, addStep,
    removeStep, updateStep, clearSteps, updateHealingConfig, dispatch,
    recordingReducer, new_Date, Date_now, uuidv4,
    mbind, Eff_bind, mret, Eff_ret in *;
  simpl in *.

Lemma lookup_spread (a b : Obj) (k : string) :
  spread a b !! k = match b !! k with Some v => Some v | None => a !! k end.
Proof.
  unfold spread. destruct (b !! k) as [v|] eqn:Hb.
  - by apply lookup_union_Some_l.
  - by rewrite lookup_union_r.
Qed.

Lemma added_step_id (stepData : Obj) (w : World) :
  added_step stepData w !! "id" = Some (JsString (uuid_source w (uuid_calls w))).
Proof. unfold added_step. by rewrite lookup_insert_ne, lookup_insert_eq. Qed.

Lemma addStep_steps (stepData : Obj) (s : RecordingState) (w : World) :
  steps (addStep stepData s w).1 = steps s ++ [added_step stepData w].
Proof. reflexivity. Qed.

Lemma removeStep_steps (stepId : string) (s : RecordingState) (w : World) :
  steps (removeStep stepId s w).1 = filter (λ step, ¬ id_is step stepId) (steps s).
Proof. reflexivity. Qed.

Lemma filter_unknown_id (stepId : string) (l : list Obj) :
  Forall (λ step, id_is step stepId = false) l →
  filter (λ step, ¬ id_is step stepId) l = l.
Proof.
  induction 1 as [|step l Hstep _ IH]; [done|].
  rewrite filter_cons_True; [by rewrite IH|].
  rewrite Hstep. simpl. tauto.
Qed.

Lemma update_unknown_id (stepId : string) (updates : Obj) (l : list Obj) :
  Forall (λ step, id_is step stepId = false) l →
  (λ step, if id_is step stepId then spread step updates else step) <$> l = l.
Proof.
  induction 1 as [|step l Hstep _ IH]; [done|].
  rewrite fmap_cons, IH, Hstep. done.
Qed.

(** ** Pausing and stopping *)

(** C7: [pauseRecording] flips [isPaused] whatever [isRecording] is and
    leaves every other field (and the world) as it was; pausing twice gives
    back the state it started from. *)
Theorem pauseRecording_involutive (s : RecordingState) (w : World) :
  let s1 := (pauseRecording s w).1 in
  isPaused s1 = negb (isPaused s)
  ∧ isRecording s1 = isRecording s
  ∧ currentTest s1 = currentTest s
  ∧ steps s1 = steps s
  ∧ healingConfig s1 = healingConfig s
  ∧ (pauseRecording s w).2 = w
  ∧ pauseRecording s1 w = (s, w).
Proof.
  destruct s as [rec paused test l cfg]. unfold_eff.
  repeat split. by rewrite negb_involutive.
Qed.

(** C9: [stopRecording] clears [isRecording] and [isPaused] and keeps
    [currentTest], [steps] and [healingConfig] exactly as they were. *)
Theorem stopRecording_retains (s : RecordingState) (w : World) :
  let s1 := (stopRecording s w).1 in
  isRecording s1 = false
  ∧ isPaused s1 = false
  ∧ currentTest s1 = currentTest s
  ∧ steps s1 = steps s
  ∧ healingConfig s1 = healingConfig s.
Proof. by unfold_eff. Qed.

(** ** The healing configuration *)

(** C10: every action other than [UPDATE_HEALING_CONFIG], the unrecognized
    ones included, leaves [healingConfig] as it was. *)
Theorem healingConfig_frame (state : RecordingState) (action : RecordingAction)
    (w : World)
    (Hother : ∀ payload, action ≠ UPDATE_HEALING_CONFIG payload) :
  healingConfig (recordingReducer state action w).1 = healingConfig state.
Proof.
  destruct action; try reflexivity.
  by destruct (Hother payload).
Qed.

Lemma healingConfig_frame_witness :
  (∀ payload, REMOVE_STEP "uuid-1" ≠ UPDATE_HEALING_CONFIG payload)
  ∧ healingConfig
      (recordingReducer sample_session.1 (REMOVE_STEP "uuid-1") sample_session.2).1
    = healingConfig sample_session.1.
Proof.
  split.
  - intros payload. discriminate.
  - apply (healingConfig_frame sample_session.1 (REMOVE_STEP "uuid-1")).
    intros payload. discriminate.
Defined.

(** C6: [updateHealingConfig partial] keeps the prior value of every field
    that [partial] does not supply, and touches nothing outside
    [healingConfig]. *)
Theorem updateHealingConfig_retains (s : RecordingState) (partial : Obj)
    (w : World) (field : string)
    (Habsent : partial !! field = None) :
  let s1 := (updateHealingConfig partial s w).1 in
  healingConfig s1 !! field = healingConfig s !! field
  ∧ isRecording s1 = isRecording s
  ∧ isPaused s1 = isPaused s
  ∧ currentTest s1 = currentTest s
  ∧ steps s1 = steps s.
Proof.
  unfold_eff. repeat split. by rewrite lookup_spread, Habsent.
Qed.

Lemma updateHealingConfig_retains_witness :
  let partial : Obj := {[ "confidenceThreshold" := JsNumber 0.9%float ]} in
  partial !! "maxRetryAttempts" = None
  ∧ healingConfig (updateHealingConfig partial initialState sample_world).1
      !! "maxRetryAttempts"
    = healingConfig initialState !! "maxRetryAttempts".
Proof.
  split.
  - reflexivity.
  - apply (updateHealingConfig_retains initialState
             {[ "confidenceThreshold" := JsNumber 0.9%float ]} sample_world
             "maxRetryAttempts").
    reflexivity.
Defined.

(** The fields that [partial] supplies take the supplied value. *)
Lemma updateHealingConfig_overrides (s : RecordingState) (partial : Obj)
    (w : World) (field : string) (v : JsValue) :
  partial !! field = Some v →
  healingConfig (updateHealingConfig partial s w).1 !! field = Some v.
Proof. intros Hsup. unfold_eff. by rewrite lookup_spread, Hsup. Qed.

Example merge_purity :
  let s1 := (updateHealingConfig {[ "confidenceThreshold" := JsNumber 0.9%float ]}
               initialState sample_world).1 in
  healingConfig s1 !! "confidenceThreshold" = Some (JsNumber 0.9%float)
  ∧ healingConfig s1 !! "enabledStrategies"
    = healingConfig initialState !! "enabledStrategies"
  ∧ healingConfig s1 !! "maxRetryAttempts" = Some (JsNumber 3%float)
  ∧ healingConfig s1 !! "fallbackTimeout" = Some (JsNumber 5000%float).
Proof. vm_compute. done. Qed.

(** The same frame property for the commands of the provider. *)
Lemma call_healingConfig (c : Command) (s : RecordingState) (w : World) :
  (∀ config, c ≠ UpdateHealing config) →
  healingConfig (call c s w).1 = healingConfig s.
Proof.
  intros Hother. destruct c; try reflexivity.
  by destruct (Hother config).
Qed.

(** ** The step ledger *)

(** C8: when no step of the ledger has the given id, [removeStep] and
    [updateStep] return the state (and the world) they were given: the
    steps keep their number, their ids and their order, and no error is
    raised. *)
Theorem unknown_id_noop (s : RecordingState) (stepId : string) (updates : Obj)
    (w : World)
    (Hunknown : Forall (λ step, id_is step stepId = false) (steps s)) :
  removeStep stepId s w = (s, w) ∧ updateStep stepId updates s w = (s, w).
Proof.
  destruct s as [rec paused test l cfg]. unfold_eff. split.
  - by rewrite filter_unknown_id.
  - by rewrite update_unknown_id.
Qed.

Lemma unknown_id_noop_witness :
  let updates : Obj := {[ "value" := JsString "bob" ]} in
  Forall (λ step, id_is step "nonexistent-id" = false) (steps sample_session.1)
  ∧ removeStep "nonexistent-id" sample_session.1 sample_session.2 = sample_session
  ∧ updateStep "nonexistent-id" updates sample_session.1 sample_session.2
    = sample_session.
Proof.
  assert (Hunknown : Forall (λ step, id_is step "nonexistent-id" = false)
                       (steps sample_session.1)).
  { repeat constructor. }
  split; [exact Hunknown|].
  rewrite (surjective_pairing sample_session) at 3 6.
  apply (unknown_id_noop sample_session.1 "nonexistent-id"
           {[ "value" := JsString "bob" ]} sample_session.2 Hunknown).
Defined.

(** C5, as stated, fails: an [id] among the partial fields replaces the id
    of the matching step. *)
Lemma updateStep_overwrites_id :
  let s1 := (updateStep "uuid-1" {[ "id" := JsString "renamed" ]}
               sample_session.1 sample_session.2).1 in
  (∃ step, step ∈ steps sample_session.1 ∧ id_is step "uuid-1" = true)
  ∧ step_ids sample_session.1 !! 0 = Some (Some (JsString "uuid-1"))
  ∧ step_ids s1 !! 0 = Some (Some (JsString "renamed"))
  ∧ step_ids s1 ≠ step_ids sample_session.1.
Proof.
  repeat split.
  - exists (added_step click_submit
              (mkWorld (uuid_source sample_world) 1 (clock_source sample_world) 2)).
    split; [|by vm_compute]. left.
  - intros Heq. apply (f_equal (λ l, l !! 0)) in Heq.
    vm_compute in Heq. discriminate.
Qed.

(** C5, amended: [updateStep stepId updates] keeps the number and the
    positions of the steps; a step whose id is [stepId] becomes the shallow
    merge of [updates] into it and every other step is unchanged; the ids
    of all steps are unchanged when [updates] has no [id] field; and
    nothing outside [steps] changes. *)
Theorem updateStep_merge (s : RecordingState) (stepId : string) (updates : Obj)
    (w : World) :
  let s1 := (updateStep stepId updates s w).1 in
  length (steps s1) = length (steps s)
  ∧ (∀ i step, steps s !! i = Some step →
       ∃ step1, steps s1 !! i = Some step1
         ∧ if id_is step stepId
           then ∀ field, step1 !! field
                  = match updates !! field with
                    | Some v => Some v
                    | None => step !! field
                    end
           else step1 = step)
  ∧ (updates !! "id" = None → step_ids s1 = step_ids s)
  ∧ isRecording s1 = isRecording s
  ∧ isPaused s1 = isPaused s
  ∧ currentTest s1 = currentTest s
  ∧ healingConfig s1 = healingConfig s.
Proof.
  unfold step_ids. unfold_eff. repeat split.
  - by rewrite length_fmap.
  - intros i step Hi. rewrite list_lookup_fmap, Hi. simpl.
    eexists; split; [reflexivity|].
    destruct (id_is step stepId); [|done].
    intros field. apply lookup_spread.
  - intros Hno. rewrite <- list_fmap_compose. apply list_fmap_ext.
    intros i step _. simpl.
    destruct (id_is step stepId); [|done].
    by rewrite lookup_spread, Hno.
Qed.

Lemma updateStep_merge_witness :
  let updates : Obj := {[ "value" := JsString "bob" ]} in
  updates !! "id" = None
  ∧ step_ids (updateStep "uuid-2" updates sample_session.1 sample_session.2).1
    = step_ids sample_session.1.
Proof.
  split; [reflexivity|].
  apply (updateStep_merge sample_session.1 "uuid-2"
           {[ "value" := JsString "bob" ]} sample_session.2).
  reflexivity.
Defined.

(** *** Order of the ledger *)

Lemma run_cons (c : Command) (cs : list Command) (s : RecordingState) (w : World) :
  run (c :: cs) s w = run cs (call c s w).1 (call c s w).2.
Proof.
  simpl. unfold mbind, Eff_bind. by destruct (call c s w).
Qed.

Lemma run_app (cs1 cs2 : list Command) (s : RecordingState) (w : World) :
  run (cs1 ++ cs2) s w = run cs2 (run cs1 s w).1 (run cs1 s w).2.
Proof.
  revert s w. induction cs1 as [|c cs1 IH]; intros s w; [done|].
  by rewrite <- app_comm_cons, !run_cons, IH.
Qed.

Lemma added_steps_cons (c : Command) (cs : list Command) (s : RecordingState)
    (w : World) :
  added_steps (c :: cs) s w
  = match c with
    | Add stepData => [added_step stepData w]
    | _ => []
    end ++ added_steps cs (call c s w).1 (call c s w).2.
Proof. simpl. by destruct (call c s w). Qed.

(** C3: in a sequence of [addStep] and [removeStep] calls, the steps left
    in the ledger are, in this order, steps of the starting ledger followed
    by steps the sequence added, in the order of their addition: [addStep]
    appends at the end and [removeStep] deletes without reordering. *)
Theorem ledger_order (cs : list Command) (s : RecordingState) (w : World)
    (Hops : Forall (λ c, ledger_op c = true) cs) :
  steps (run cs s w).1 `sublist_of` steps s ++ added_steps cs s w
  ∧ (∀ stepData,
       steps (addStep stepData s w).1 = steps s ++ [added_step stepData w])
  ∧ (∀ stepId, steps (removeStep stepId s w).1 `sublist_of` steps s).
Proof.
  split; [|split].
  - revert s w. induction Hops as [|c cs Hc _ IH]; intros s w.
    + simpl. by rewrite app_nil_r.
    + rewrite run_cons, added_steps_cons.
      specialize (IH (call c s w).1 (call c s w).2).
      destruct c; try discriminate Hc; cbn [call] in IH.
      * rewrite addStep_steps in IH. by rewrite <- app_assoc in IH.
      * simpl app. etrans; [exact IH|].
        apply sublist_app; [|done].
        rewrite removeStep_steps. apply sublist_filter.
  - intros stepData. apply addStep_steps.
  - intros stepId. rewrite removeStep_steps. apply sublist_filter.
Qed.

Lemma ledger_order_witness :
  let cs := [ Add click_submit; Remove "uuid-1"; Add type_user ] in
  Forall (λ c, ledger_op c = true) cs
  ∧ steps (run cs sample_session.1 sample_session.2).1
      `sublist_of` steps sample_session.1
                     ++ added_steps cs sample_session.1 sample_session.2.
Proof.
  assert (Hops : Forall (λ c, ledger_op c = true)
                   [ Add click_submit; Remove "uuid-1"; Add type_user ]).
  { repeat constructor. }
  split; [exact Hops|].
  apply (ledger_order _ sample_session.1 sample_session.2 Hops).
Defined.

Example sample_ledger_order :
  let cs := [ Add click_submit; Remove "uuid-1"; Add type_user ] in
  step_ids (run cs sample_session.1 sample_session.2).1
  = [ Some (JsString "uuid-2"); Some (JsString "uuid-3"); Some (JsString "uuid-4") ].
Proof. vm_compute. done. Qed.

(** ** What a command reads from the world *)

(** C4, as stated, fails: [startRecording] and [addStep] consult the
    identifier source, so equal states and equal payloads do not give equal
    states. *)
Lemma call_depends_on_world :
  (call (Start "t2" "http://b") initialState sample_world).1
  ≠ (call (Start "t2" "http://b") initialState other_world).1
  ∧ (call (Add click_submit) initialState sample_world).1
    ≠ (call (Add click_submit) initialState other_world).1.
Proof.
  split; intros Heq.
  - apply (f_equal (λ s, GeneratedTest.id <$> currentTest s)) in Heq.
    vm_compute in Heq. discriminate.
  - apply (f_equal step_ids) in Heq.
    vm_compute in Heq. discriminate.
Qed.

(** C4, amended: the state a command produces is determined by the state
    it starts from, its payload and the values it reads from [uuidv4()] and
    the clock; [pause], [stop], [removeStep], [updateStep], [clearSteps] and
    [updateHealingConfig] read nothing and leave the world untouched. *)
Theorem call_replayable (c : Command) (s : RecordingState) (w1 w2 : World)
    (Hreads : reads c w1 = reads c w2) :
  (call c s w1).1 = (call c s w2).1
  ∧ (if reads c w1 is ([], []) then (call c s w1).2 = w1 else True).
Proof.
  destruct c; unfold_eff; try done; split; try done.
  - injection Hreads as Hid Hcreated Hmodified.
    by rewrite Hid, Hcreated, Hmodified.
  - injection Hreads as Hid Hnow.
    by rewrite Hid, Hnow.
Qed.

Lemma call_replayable_witness :
  reads (Start "t2" "http://b") sample_world
  = reads (Start "t2" "http://b") replay_world
  ∧ (call (Start "t2" "http://b") sample_session.1 sample_world).1
    = (call (Start "t2" "http://b") sample_session.1 replay_world).1.
Proof.
  split; [reflexivity|].
  apply (call_replayable (Start "t2" "http://b") sample_session.1
           sample_world replay_world).
  reflexivity.
Defined.

(** ** Identifiers along a session *)

(** Commands never change what the identifier source will return, and the
    number of identifiers drawn only grows. *)
Lemma call_uuid_source (c : Command) (s : RecordingState) (w : World) :
  uuid_source (call c s w).2 = uuid_source w.
Proof. by destruct c. Qed.

Lemma call_uuid_calls (c : Command) (s : RecordingState) (w : World) :
  uuid_calls (call c s w).2
  = match c with
    | Start _ _ | Add _ => S (uuid_calls w)
    | _ => uuid_calls w
    end.
Proof. by destruct c. Qed.

Lemma call_uuid_calls_le (c : Command) (s : RecordingState) (w : World) :
  uuid_calls w ≤ uuid_calls (call c s w).2.
Proof. rewrite call_uuid_calls. destruct c; lia. Qed.

Lemma run_uuid_source (cs : list Command) (s : RecordingState) (w : World) :
  uuid_source (run cs s w).2 = uuid_source w.
Proof.
  revert s w. induction cs as [|c cs IH]; intros s w; [done|].
  by rewrite run_cons, IH, call_uuid_source.
Qed.

Lemma run_uuid_calls_le (cs : list Command) (s : RecordingState) (w : World) :
  uuid_calls w ≤ uuid_calls (run cs s w).2.
Proof.
  revert s w. induction cs as [|c cs IH]; intros s w; [done|].
  rewrite run_cons. etrans; [apply (call_uuid_calls_le c s w)|apply IH].
Qed.

(** When [uuidv4()] has not returned the same value twice, two of its calls
    that returned the same value are the same call. *)
Lemma issued_NoDup_inj (w : World) (i j : nat) :
  NoDup (issued w) →
  i < uuid_calls w → j < uuid_calls w →
  uuid_source w i = uuid_source w j → i = j.
Proof.
  intros Hnodup Hi Hj Heq.
  apply (NoDup_lookup _ i j (uuid_source w i) Hnodup); unfold issued;
    rewrite list_lookup_fmap, lookup_seq_lt by done; simpl; congruence.
Qed.

Lemma call_test_id_issued (c : Command) (s : RecordingState) (w : World) :
  test_id_issued s w → test_id_issued (call c s w).1 (call c s w).2.
Proof.
  intros Hinv t Ht. rewrite call_uuid_source, call_uuid_calls.
  destruct c; simpl in Ht;
    try (destruct (Hinv t Ht) as (k & Hk & Hid); exists k; split; [lia|done]).
  injection Ht as <-. exists (uuid_calls w). split; [lia|done].
Qed.

Lemma run_test_id_issued (cs : list Command) (s : RecordingState) (w : World) :
  test_id_issued s w → test_id_issued (run cs s w).1 (run cs s w).2.
Proof.
  revert s w. induction cs as [|c cs IH]; intros s w Hinv; [done|].
  rewrite run_cons. by apply IH, call_test_id_issued.
Qed.

(** ** Starting a recording *)

(** C1: from every state, [startRecording testName url] gives a recording,
    unpaused state with an empty ledger and a current test named
    [testName], described from [url], with [url] and the 1920x1080 viewport
    in its metadata, and whose id is the value [uuidv4()] returned.  When
    the state was reached by commands from [initialState] and [uuidv4()]
    has not returned the same value twice, that id differs from the id of
    the test the state held before. *)
Theorem startRecording_fresh_test (testName url : string) (s : RecordingState)
    (w : World) :
  let s1 := (startRecording testName url s w).1 in
  let w1 := (startRecording testName url s w).2 in
  isRecording s1 = true
  ∧ isPaused s1 = false
  ∧ steps s1 = []
  ∧ healingConfig s1 = healingConfig s
  ∧ ∃ t, currentTest s1 = Some t
      ∧ GeneratedTest.id t = (uuidv4 w).1
      ∧ GeneratedTest.name t = testName
      ∧ GeneratedTest.description t = "Generated test for " +:+ url
      ∧ GeneratedTest.steps t = []
      ∧ GeneratedTest.assertions t = []
      ∧ Metadata.url (GeneratedTest.metadata t) = url
      ∧ Metadata.viewport (GeneratedTest.metadata t)
        = Viewport.mk 1920%float 1080%float
      ∧ (∀ cs w0 t0,
           run cs initialState w0 = (s, w) →
           NoDup (issued w1) →
           currentTest s = Some t0 →
           GeneratedTest.id t ≠ GeneratedTest.id t0).
Proof.
  simpl. repeat split. eexists. repeat split.
  simpl. intros cs w0 t0 Hrun Hnodup Ht0 Heq.
  assert (Hinv : test_id_issued s w).
  { replace s with (run cs initialState w0).1 by by rewrite Hrun.
    replace w with (run cs initialState w0).2 by by rewrite Hrun.
    apply run_test_id_issued. intros t Ht. discriminate Ht. }
  destruct (Hinv t0 Ht0) as (k & Hk & Hid).
  rewrite Hid in Heq.
  apply (issued_NoDup_inj _ (uuid_calls w) k Hnodup) in Heq; simpl; lia.
Qed.

Lemma startRecording_fresh_test_witness :
  let cs := [ Start "Login flow" "https://app.test/login";
              Add click_submit; Add type_user ] in
  let s1 := (startRecording "t2" "http://b" sample_session.1 sample_session.2).1 in
  let w1 := (startRecording "t2" "http://b" sample_session.1 sample_session.2).2 in
  run cs initialState sample_world = (sample_session.1, sample_session.2)
  ∧ NoDup (issued w1)
  ∧ (GeneratedTest.id <$> currentTest sample_session.1 = Some "uuid-0")
  ∧ ∃ t, currentTest s1 = Some t ∧ GeneratedTest.id t ≠ "uuid-0".
Proof.
  assert (Hnodup : NoDup (issued
            (startRecording "t2" "http://b" sample_session.1 sample_session.2).2)).
  { apply (bool_decide_unpack _). vm_compute. exact I. }
  repeat split; [exact Hnodup|].
  destruct (startRecording_fresh_test "t2" "http://b"
              sample_session.1 sample_session.2)
    as (_ & _ & _ & _ & t & Ht & _ & _ & _ & _ & _ & _ & _ & Hfresh).
  exists t. split; [exact Ht|].
  apply (Hfresh [ Start "Login flow" "https://app.test/login";
                  Add click_submit; Add type_user ] sample_world
           (GeneratedTest.mk "uuid-0" "Login flow"
              ("Generated test for " +:+ "https://app.test/login") [] []
              (Metadata.mk "https://app.test/login"
                 (Viewport.mk 1920%float 1080%float)
                 (mkDate 1000%float) (mkDate 1000%float))));
    [reflexivity|exact Hnodup|reflexivity].
Defined.

(** ** Uniqueness of step identifiers *)

(** C2, as stated, fails: with identifiers that are all distinct,
    [updateStep] can still give one step the id of another. *)
Lemma updateStep_duplicates_id :
  let cs := [ Start "Login flow" "https://app.test/login";
              Add click_submit; Add type_user;
              Update "uuid-2" {[ "id" := JsString "uuid-1" ]} ] in
  NoDup (issued (run cs initialState sample_world).2)
  ∧ step_ids (run cs initialState sample_world).1
    = [ Some (JsString "uuid-1"); Some (JsString "uuid-1") ]
  ∧ ¬ NoDup (step_ids (run cs initialState sample_world).1).
Proof.
  split; [|split].
  - apply (bool_decide_unpack _). vm_compute. exact I.
  - vm_compute. reflexivity.
  - intros Hnodup. vm_compute in Hnodup.
    apply NoDup_cons in Hnodup as [Hnotin _]. apply Hnotin. left.
Qed.

Lemma issued_NoDup_mono (w w1 : World) :
  uuid_source w1 = uuid_source w →
  uuid_calls w ≤ uuid_calls w1 →
  NoDup (issued w1) → NoDup (issued w).
Proof.
  intros Hsrc Hle. unfold issued. rewrite Hsrc.
  replace (uuid_calls w1) with (uuid_calls w + (uuid_calls w1 - uuid_calls w))
    by lia.
  rewrite seq_app, fmap_app. by intros [Hnodup _]%NoDup_app.
Qed.

Lemma sublist_fmap {A B} (f : A → B) (l k : list A) :
  l `sublist_of` k → f <$> l `sublist_of` f <$> k.
Proof.
  induction 1; simpl; [constructor|by apply sublist_skip|by apply sublist_cons].
Qed.

Lemma update_keeps_step_ids (stepId : string) (updates : Obj) (l : list Obj) :
  updates !! "id" = None →
  (λ step : Obj, step !! "id")
    <$> ((λ step, if id_is step stepId then spread step updates else step) <$> l)
  = (λ step : Obj, step !! "id") <$> l.
Proof.
  intros Hno. rewrite <- list_fmap_compose. apply list_fmap_ext.
  intros i step _. simpl.
  destruct (id_is step stepId); [|done].
  by rewrite lookup_spread, Hno.
Qed.

Lemma call_ledger_ids (c : Command) (s : RecordingState) (w : World) :
  keeps_id c = true →
  NoDup (issued (call c s w).2) →
  ledger_ids_issued s w ∧ NoDup (step_ids s) →
  ledger_ids_issued (call c s w).1 (call c s w).2
  ∧ NoDup (step_ids (call c s w).1).
Proof.
  intros Hkeeps Hgen [Hissued Hnodup].
  unfold ledger_ids_issued, step_ids in *.
  rewrite call_uuid_source, call_uuid_calls.
  destruct c; cbn [call]; rewrite ?addStep_steps; simpl steps;
    try (split; [done || constructor | done || constructor]).
  - (* addStep *)
    split.
    + apply Forall_app. split.
      * eapply Forall_impl; [exact Hissued|].
        intros step (k & Hk & Hid). exists k. split; [lia|done].
      * apply Forall_singleton. exists (uuid_calls w).
        split; [lia|apply added_step_id].
    + rewrite fmap_app. apply NoDup_app. split; [done|]. split; [|apply NoDup_singleton].
      intros x Hx Hnew. apply list_elem_of_singleton in Hnew. subst x.
      apply list_elem_of_fmap in Hx as (step & Heq & Hin).
      rewrite Forall_forall in Hissued.
      destruct (Hissued step Hin) as (k & Hk & Hid).
      rewrite added_step_id, Hid in Heq. unfold id_value in Heq.
      injection Heq as Heq.
      apply (issued_NoDup_inj _ (uuid_calls w) k Hgen) in Heq;
        rewrite ?call_uuid_calls; lia.
  - (* removeStep *)
    split.
    + apply Forall_forall. intros step [_ Hin]%list_elem_of_filter.
      rewrite Forall_forall in Hissued. by apply Hissued.
    + eapply sublist_NoDup; [exact Hnodup|].
      apply sublist_fmap, sublist_filter.
  - (* updateStep *)
    simpl in Hkeeps. destruct (updates !! "id") eqn:Hno; [discriminate|].
    split.
    + apply Forall_fmap. eapply Forall_impl; [exact Hissued|].
      intros step (k & Hk & Hid). exists k. split; [done|]. simpl.
      destruct (id_is step stepId); [|done].
      by rewrite lookup_spread, Hno.
    + by rewrite update_keeps_step_ids.
Qed.

Lemma run_ledger_ids (cs : list Command) (s : RecordingState) (w : World) :
  Forall (λ c, keeps_id c = true) cs →
  NoDup (issued (run cs s w).2) →
  ledger_ids_issued s w ∧ NoDup (step_ids s) →
  ledger_ids_issued (run cs s w).1 (run cs s w).2
  ∧ NoDup (step_ids (run cs s w).1).
Proof.
  intros Hkeeps. revert s w.
  induction Hkeeps as [|c cs Hc _ IH]; intros s w Hgen Hinv; [done|].
  rewrite run_cons in *. apply IH; [done|].
  apply call_ledger_ids; [done| |done].
  eapply issued_NoDup_mono; [|apply run_uuid_calls_le|exact Hgen].
  apply run_uuid_source.
Qed.

Lemma added_ids_sublist (cs : list Command) (s : RecordingState) (w : World) :
  (λ step : Obj, step !! "id") <$> added_steps cs s w
  `sublist_of`
  id_value (uuid_source w)
    <$> seq (uuid_calls w) (uuid_calls (run cs s w).2 - uuid_calls w).
Proof.
  revert s w. induction cs as [|c cs IH]; intros s w; [apply sublist_nil_l|].
  rewrite added_steps_cons, run_cons.
  specialize (IH (call c s w).1 (call c s w).2).
  pose proof (run_uuid_calls_le cs (call c s w).1 (call c s w).2) as Hle.
  rewrite call_uuid_source in IH.
  rewrite call_uuid_calls in IH, Hle.
  set (final := uuid_calls (run cs (call c s w).1 (call c s w).2).2) in *.
  destruct c; simpl app; try exact IH;
    replace (final - uuid_calls w) with (S (final - S (uuid_calls w))) by lia;
    simpl seq; rewrite fmap_cons.
  - by apply sublist_cons.
  - rewrite fmap_cons, added_step_id. by apply sublist_skip.
Qed.

(** C2, amended: in a session run from [initialState] in which [uuidv4()]
    has not returned the same value twice, the ids that the [addStep] calls
    generate are pairwise distinct, whatever other commands come in between
    and whether or not the steps are still in the ledger; and, as long as no
    [updateStep] call supplies an [id] field, the ids of the steps in the
    ledger are pairwise distinct after every command. *)
Theorem step_ids_unique (cs : list Command) (w0 : World)
    (Hgen : NoDup (issued (run cs initialState w0).2)) :
  NoDup ((λ step : Obj, step !! "id") <$> added_steps cs initialState w0)
  ∧ (Forall (λ c, keeps_id c = true) cs →
     ∀ cs1 cs2, cs = cs1 ++ cs2 →
       NoDup (step_ids (run cs1 initialState w0).1)).
Proof.
  split.
  - eapply sublist_NoDup; [|apply added_ids_sublist].
    apply NoDup_fmap_2_strong; [|apply NoDup_seq].
    intros i j Hi%elem_of_seq Hj%elem_of_seq Heq.
    pose proof (run_uuid_calls_le cs initialState w0) as Hle.
    injection Heq as Heq. rewrite <- (run_uuid_source cs initialState w0) in Heq.
    apply (issued_NoDup_inj _ i j Hgen) in Heq; lia.
  - intros Hkeeps cs1 cs2 ->.
    apply Forall_app in Hkeeps as [Hkeeps1 _].
    apply (run_ledger_ids cs1 initialState w0 Hkeeps1).
    + rewrite run_app in Hgen.
      eapply issued_NoDup_mono; [|apply run_uuid_calls_le|exact Hgen].
      apply run_uuid_source.
    + split; constructor.
Qed.

Lemma step_ids_unique_witness :
  let cs := [ Start "Login flow" "https://app.test/login";
              Add click_submit; Add type_user; Remove "uuid-1";
              Update "uuid-2" {[ "value" := JsString "bob" ]};
              Add click_submit ] in
  NoDup (issued (run cs initialState sample_world).2)
  ∧ Forall (λ c, keeps_id c = true) cs
  ∧ NoDup ((λ step : Obj, step !! "id") <$> added_steps cs initialState sample_world)
  ∧ NoDup (step_ids (run cs initialState sample_world).1).
Proof.
  assert (Hgen : NoDup (issued
            (run [ Start "Login flow" "https://app.test/login";
                   Add click_submit; Add type_user; Remove "uuid-1";
                   Update "uuid-2" {[ "value" := JsString "bob" ]};
                   Add click_submit ] initialState sample_world).2)).
  { apply (bool_decide_unpack _). vm_compute. exact I. }
  assert (Hkeeps : Forall (λ c, keeps_id c = true)
            [ Start "Login flow" "https://app.test/login";
              Add click_submit; Add type_user; Remove "uuid-1";
              Update "uuid-2" {[ "value" := JsString "bob" ]};
              Add click_submit ]).
  { repeat constructor. }
  destruct (step_ids_unique _ sample_world Hgen) as [Hadded Hledger].
  repeat split; [exact Hgen|exact Hkeeps|exact Hadded|].
  apply (Hledger Hkeeps _ []). by rewrite app_nil_r.
Defined.

Example sample_unique_ids :
  let cs := [ Start "Login flow" "https://app.test/login";
              Add click_submit; Add type_user; Remove "uuid-1";
              Update "uuid-2" {[ "value" := JsString "bob" ]};
              Add click_submit ] in
  (λ step : Obj, step !! "id") <$> added_steps cs initialState sample_world
  = [ Some (JsString "uuid-1"); Some (JsString "uuid-2"); Some (JsString "uuid-3") ]
  ∧ step_ids (run cs initialState sample_world).1
    = [ Some (JsString "uuid-2"); Some (JsString "uuid-3") ].
Proof. vm_compute. done. Qed.

(** * Further properties of the reducer and the commands *)

(** ** Removing steps *)

Lemma not_id_is (step : Obj) (stepId : string) :
  ¬ id_is step stepId ↔ id_is step stepId = false.
Proof. destruct (id_is step stepId); simpl; naive_solver. Qed.

Lemma filter_id_twice (stepId : string) (l : list Obj) :
  filter (λ step, ¬ id_is step stepId) (filter (λ step, ¬ id_is step stepId) l)
  = filter (λ step, ¬ id_is step stepId) l.
Proof.
  apply filter_unknown_id, Forall_forall.
  intros step [Hno _]%list_elem_of_filter. by apply not_id_is.
Qed.

Lemma removeStep_eq (stepId : string) (s : RecordingState) (w : World) :
  removeStep stepId s w
  = ({| isRecording := isRecording s;
        isPaused := isPaused s;
        currentTest := currentTest s;
        steps := filter (λ step, ¬ id_is step stepId) (steps s);
        healingConfig := healingConfig s |}, w).
Proof. reflexivity. Qed.

(** X1: [removeStep] removes every step that carries the id, not only the
    first one: a step is in the ledger afterwards exactly when it was there
    before and its id is not the given one. *)
Theorem removeStep_membership (stepId : string) (s : RecordingState) (w : World)
    (step : Obj) :
  (step ∈ steps (removeStep stepId s w).1
   ↔ step ∈ steps s ∧ id_is step stepId = false)
  ∧ Forall (λ step, id_is step stepId = false) (steps (removeStep stepId s w).1).
Proof.
  rewrite removeStep_steps. split.
  - rewrite list_elem_of_filter, not_id_is. tauto.
  - apply Forall_forall. intros st [Hno _]%list_elem_of_filter.
    by apply not_id_is.
Qed.

(** X2: Removing the same id a second time changes nothing. *)
Theorem removeStep_idempotent (stepId : string) (s : RecordingState) (w : World) :
  removeStep stepId (removeStep stepId s w).1 (removeStep stepId s w).2
  = removeStep stepId s w.
Proof. rewrite !removeStep_eq. cbn. by rewrite filter_id_twice. Qed.

(** X3: Removals of two ids can be made in either order. *)
Theorem removeStep_comm (id1 id2 : string) (s : RecordingState) (w : World) :
  run [Remove id1; Remove id2] s w = run [Remove id2; Remove id1] s w.
Proof.
  rewrite !run_cons. cbn [run call]. rewrite !removeStep_eq. cbn.
  unfold mret, Eff_ret. do 2 f_equal.
  rewrite !list_filter_filter. apply list_filter_iff. tauto.
Qed.

Lemma filter_id_length (stepId : string) (l : list Obj) :
  NoDup ((λ step : Obj, step !! "id") <$> l) →
  Exists (λ step, id_is step stepId = true) l →
  length l = S (length (filter (λ step, ¬ id_is step stepId) l)).
Proof.
  induction l as [|step l IH]; intros Hnodup Hex; [by apply Exists_nil in Hex|].
  rewrite fmap_cons in Hnodup. apply NoDup_cons in Hnodup as [Hnotin Hnodup].
  destruct (id_is step stepId) eqn:Hstep.
  - rewrite filter_cons_False by (rewrite Hstep; simpl; tauto).
    rewrite filter_unknown_id; [done|].
    apply Forall_forall. intros other Hother.
    destruct (id_is other stepId) eqn:Hmatch; [|done].
    destruct Hnotin. apply list_elem_of_fmap. exists other. split; [|done].
    unfold id_is in Hstep, Hmatch.
    destruct (step !! "id") as [[]|]; try discriminate Hstep.
    destruct (other !! "id") as [[]|]; try discriminate Hmatch.
    apply bool_decide_eq_true in Hstep, Hmatch. congruence.
  - rewrite filter_cons_True by (rewrite Hstep; simpl; tauto).
    simpl. f_equal. apply IH; [done|].
    apply Exists_cons in Hex as [Hex|Hex]; [congruence|done].
Qed.

(** X4: When the ids of the ledger are pairwise distinct and one step carries
    the given id, [removeStep] shortens the ledger by exactly one step; in
    every case it never lengthens it. *)
Theorem removeStep_length (stepId : string) (s : RecordingState) (w : World) :
  length (steps (removeStep stepId s w).1) ≤ length (steps s)
  ∧ (NoDup (step_ids s) →
     Exists (λ step, id_is step stepId = true) (steps s) →
     length (steps s) = S (length (steps (removeStep stepId s w).1))).
Proof.
  rewrite removeStep_steps. split; [apply length_filter|].
  apply filter_id_length.
Qed.

Lemma removeStep_length_witness :
  NoDup (step_ids sample_session.1)
  ∧ Exists (λ step, id_is step "uuid-1" = true) (steps sample_session.1)
  ∧ length (steps sample_session.1)
    = S (length (steps (removeStep "uuid-1" sample_session.1 sample_session.2).1)).
Proof.
  assert (Hnodup : NoDup (step_ids sample_session.1)).
  { vm_compute. apply NoDup_cons. split; [|apply NoDup_singleton].
    intros Hin%list_elem_of_singleton. discriminate Hin. }
  assert (Hex : Exists (λ step, id_is step "uuid-1" = true) (steps sample_session.1)).
  { apply Exists_cons_hd. reflexivity. }
  split; [exact Hnodup|]. split; [exact Hex|].
  apply (removeStep_length "uuid-1" sample_session.1 sample_session.2);
    [exact Hnodup|exact Hex].
Defined.

(** ** Updating steps *)

Lemma updateStep_eq (stepId : string) (updates : Obj) (s : RecordingState)
    (w : World) :
  updateStep stepId updates s w
  = ({| isRecording := isRecording s;
        isPaused := isPaused s;
        currentTest := currentTest s;
        steps := (λ step, if id_is step stepId
                          then spread step updates
                          else step) <$> steps s;
        healingConfig := healingConfig s |}, w).
Proof. reflexivity. Qed.

Lemma spread_empty (a : Obj) : spread a ∅ = a.
Proof. unfold spread. apply (left_id_L ∅ (∪)). Qed.

Lemma spread_assoc (a b c : Obj) : spread (spread a b) c = spread a (spread b c).
Proof. unfold spread. apply (assoc_L (∪)). Qed.

Lemma id_is_spread_keep (step updates : Obj) (stepId : string) :
  updates !! "id" = None →
  id_is (spread step updates) stepId = id_is step stepId.
Proof. intros Hno. unfold id_is. by rewrite lookup_spread, Hno. Qed.

(** X5: An update that supplies no field leaves the whole state as it was,
    whether or not a step carries the id. *)
Theorem updateStep_no_fields (stepId : string) (s : RecordingState) (w : World) :
  updateStep stepId ∅ s w = (s, w).
Proof.
  rewrite updateStep_eq. destruct s as [rec paused test l cfg]. cbn.
  do 2 f_equal. rewrite <- (list_fmap_id l) at 2.
  apply list_fmap_ext. intros i step _. simpl.
  destruct (id_is step stepId); [apply spread_empty|done].
Qed.

(** X6: Two updates of the same id, the first of which supplies no [id] field,
    amount to one update with the merged fields, the later ones winning. *)
Theorem updateStep_twice (stepId : string) (updates1 updates2 : Obj)
    (s : RecordingState) (w : World)
    (Hno : updates1 !! "id" = None) :
  run [Update stepId updates1; Update stepId updates2] s w
  = updateStep stepId (spread updates1 updates2) s w.
Proof.
  rewrite !run_cons. cbn [run call]. rewrite !updateStep_eq. cbn.
  unfold mret, Eff_ret. do 2 f_equal.
  rewrite <- list_fmap_compose. apply list_fmap_ext. intros i step _. simpl.
  destruct (id_is step stepId) eqn:Hstep.
  - by rewrite id_is_spread_keep, Hstep, spread_assoc.
  - by rewrite Hstep.
Qed.

Lemma updateStep_twice_witness :
  let updates1 : Obj := {[ "value" := JsString "bob" ]} in
  let updates2 : Obj := {[ "value" := JsString "carol"; "selector" := JsString "#name" ]} in
  updates1 !! "id" = None
  ∧ run [Update "uuid-2" updates1; Update "uuid-2" updates2]
        sample_session.1 sample_session.2
    = updateStep "uuid-2" (spread updates1 updates2)
        sample_session.1 sample_session.2.
Proof.
  split; [reflexivity|].
  apply (updateStep_twice "uuid-2" {[ "value" := JsString "bob" ]}
           {[ "value" := JsString "carol"; "selector" := JsString "#name" ]}
           sample_session.1 sample_session.2).
  reflexivity.
Defined.

(** X7: Removing a step discards what an earlier update without an [id] field
    did to it. *)
Theorem updateStep_then_removeStep (stepId : string) (updates : Obj)
    (s : RecordingState) (w : World)
    (Hno : updates !! "id" = None) :
  run [Update stepId updates; Remove stepId] s w = removeStep stepId s w.
Proof.
  rewrite !run_cons. cbn [run call]. rewrite updateStep_eq, !removeStep_eq. cbn.
  unfold mret, Eff_ret. do 2 f_equal.
  induction (steps s) as [|step l IH]; [done|].
  rewrite fmap_cons. destruct (id_is step stepId) eqn:Hstep.
  - rewrite !filter_cons_False; [done| |].
    + rewrite Hstep. simpl. tauto.
    + rewrite id_is_spread_keep, Hstep by done. simpl. tauto.
  - rewrite !filter_cons_True; [by rewrite IH| |]; rewrite Hstep; simpl; tauto.
Qed.

Lemma updateStep_then_removeStep_witness :
  let updates : Obj := {[ "value" := JsString "bob" ]} in
  updates !! "id" = None
  ∧ run [Update "uuid-2" updates; Remove "uuid-2"] sample_session.1 sample_session.2
    = removeStep "uuid-2" sample_session.1 sample_session.2.
Proof.
  split; [reflexivity|].
  apply (updateStep_then_removeStep "uuid-2" {[ "value" := JsString "bob" ]}
           sample_session.1 sample_session.2).
  reflexivity.
Defined.

(** ** Merging the healing configuration *)

Lemma updateHealingConfig_eq (config : Obj) (s : RecordingState) (w : World) :
  updateHealingConfig config s w
  = ({| isRecording := isRecording s;
        isPaused := isPaused s;
        currentTest := currentTest s;
        steps := steps s;
        healingConfig := spread (healingConfig s) config |}, w).
Proof. reflexivity. Qed.

(** X8: Two successive merges amount to one merge of the merged partial
    configurations, the later fields winning; merging the same partial
    configuration twice is the same as merging it once, and merging an
    empty one changes nothing. *)
Theorem updateHealingConfig_twice (config1 config2 : Obj) (s : RecordingState)
    (w : World) :
  run [UpdateHealing config1; UpdateHealing config2] s w
  = updateHealingConfig (spread config1 config2) s w
  ∧ run [UpdateHealing config1; UpdateHealing config1] s w
    = updateHealingConfig config1 s w
  ∧ updateHealingConfig ∅ s w = (s, w).
Proof.
  rewrite !run_cons. cbn [run call]. rewrite !updateHealingConfig_eq. cbn.
  unfold mret, Eff_ret. repeat split.
  - by rewrite spread_assoc.
  - rewrite spread_assoc. unfold spread at 2. by rewrite (idemp_L (∪)).
  - rewrite spread_empty. by destruct s.
Qed.

Lemma call_healingConfig_field (c : Command) (s : RecordingState) (w : World)
    (field : string) :
  is_Some (healingConfig s !! field) →
  is_Some (healingConfig (call c s w).1 !! field).
Proof.
  intros Hfield. destruct c; try exact Hfield.
  cbn [call]. rewrite updateHealingConfig_eq. cbn [fst healingConfig].
  rewrite lookup_spread. by destruct (config !! field).
Qed.

(** X9: No command ever removes a field of the healing configuration: a field
    that is present stays present through every sequence of commands. *)
Theorem healingConfig_field_persists (cs : list Command) (s : RecordingState)
    (w : World) (field : string)
    (Hfield : is_Some (healingConfig s !! field)) :
  is_Some (healingConfig (run cs s w).1 !! field).
Proof.
  revert s w Hfield. induction cs as [|c cs IH]; intros s w Hfield; [done|].
  rewrite run_cons. by apply IH, call_healingConfig_field.
Qed.

Lemma healingConfig_field_persists_witness :
  let cs := [ UpdateHealing {[ "confidenceThreshold" := JsNumber 0.9%float ]};
              Start "t2" "http://b"; Clear ] in
  is_Some (healingConfig initialState !! "fallbackTimeout")
  ∧ is_Some (healingConfig (run cs initialState sample_world).1 !! "fallbackTimeout").
Proof.
  assert (Hfield : is_Some (healingConfig initialState !! "fallbackTimeout")).
  { eexists. reflexivity. }
  split; [exact Hfield|].
  apply (healingConfig_field_persists _ initialState sample_world _ Hfield).
Defined.

Lemma run_healingConfig (cs : list Command) (s : RecordingState) (w : World) :
  Forall (λ c, is_update_healing c = false) cs →
  healingConfig (run cs s w).1 = healingConfig s.
Proof.
  intros Hcs. revert s w. induction Hcs as [|c cs Hc _ IH]; intros s w; [done|].
  rewrite run_cons, IH. apply call_healingConfig.
  intros config ->. discriminate Hc.
Qed.

(** X10: Through a sequence of commands without [updateHealingConfig], however
    long, the healing configuration stays what it was; from [initialState]
    it stays the default one. *)
Theorem healingConfig_stable (cs : list Command) (w : World)
    (Hcs : Forall (λ c, is_update_healing c = false) cs) :
  (∀ s, healingConfig (run cs s w).1 = healingConfig s)
  ∧ healingConfig (run cs initialState w).1 !! "confidenceThreshold"
    = Some (JsNumber 0.8%float)
  ∧ healingConfig (run cs initialState w).1 !! "maxRetryAttempts"
    = Some (JsNumber 3%float)
  ∧ healingConfig (run cs initialState w).1 !! "fallbackTimeout"
    = Some (JsNumber 5000%float).
Proof.
  split; [intros s; by apply run_healingConfig|].
  by rewrite run_healingConfig.
Qed.

Lemma healingConfig_stable_witness :
  let cs := [ Start "t2" "http://b"; Add click_submit; Pause; Clear; Stop ] in
  Forall (λ c, is_update_healing c = false) cs
  ∧ healingConfig (run cs initialState sample_world).1 !! "maxRetryAttempts"
    = Some (JsNumber 3%float).
Proof.
  assert (Hcs : Forall (λ c, is_update_healing c = false)
                  [ Start "t2" "http://b"; Add click_submit; Pause; Clear; Stop ]).
  { repeat constructor. }
  split; [exact Hcs|].
  apply (healingConfig_stable _ sample_world Hcs).
Defined.

(** ** Adding steps *)

Lemma addStep_eq (stepData : Obj) (s : RecordingState) (w : World) :
  addStep stepData s w
  = ({| isRecording := isRecording s;
        isPaused := isPaused s;
        currentTest := currentTest s;
        steps := steps s ++ [added_step stepData w];
        healingConfig := healingConfig s |},
     mkWorld (uuid_source w) (S (uuid_calls w))
             (clock_source w) (S (clock_calls w))).
Proof. reflexivity. Qed.

(** X11: [addStep] lengthens the ledger by one step, put last.  That step has
    the id [uuidv4()] returned and the clock reading as timestamp, also
    when the caller's data had an [id] or a [timestamp] of its own, and
    every other field of the caller's data as it was given. *)
Theorem addStep_step (stepData : Obj) (s : RecordingState) (w : World) :
  ∃ step,
    steps (addStep stepData s w).1 = steps s ++ [step]
    ∧ length (steps (addStep stepData s w).1) = S (length (steps s))
    ∧ step !! "id" = Some (JsString (uuidv4 w).1)
    ∧ step !! "timestamp" = Some (JsNumber (Date_now w).1)
    ∧ ∀ field, field ≠ "id" → field ≠ "timestamp" →
        step !! field = stepData !! field.
Proof.
  exists (added_step stepData w). rewrite addStep_steps. repeat split.
  - rewrite length_app. simpl. lia.
  - apply added_step_id.
  - unfold added_step. by rewrite lookup_insert_eq.
  - intros field Hid Hts. unfold added_step.
    by rewrite !lookup_insert_ne.
Qed.

Lemma addStep_step_witness :
  let stepData : Obj := {[ "id" := JsString "mine"; "action" := JsString "click" ]} in
  "action" ≠ "id" ∧ "action" ≠ "timestamp"
  ∧ ∃ step,
      steps (addStep stepData sample_session.1 sample_session.2).1
      = steps sample_session.1 ++ [step]
      ∧ step !! "id" = Some (JsString "uuid-3")
      ∧ step !! "action" = Some (JsString "click").
Proof.
  split; [done|]. split; [done|].
  destruct (addStep_step {[ "id" := JsString "mine"; "action" := JsString "click" ]}
              sample_session.1 sample_session.2)
    as (step & Hsteps & _ & Hid & _ & Hfields).
  exists step. split; [exact Hsteps|]. split; [exact Hid|].
  rewrite (Hfields "action"); done.
Defined.

(** X12: Removing the step that [addStep] has just added, by the id it was
    given, restores the state, provided no earlier step carries that id. *)
Theorem addStep_then_removeStep (stepData : Obj) (s : RecordingState) (w : World)
    (Hfresh : Forall (λ step, id_is step (uuidv4 w).1 = false) (steps s)) :
  removeStep (uuidv4 w).1 (addStep stepData s w).1 (addStep stepData s w).2
  = (s, (addStep stepData s w).2).
Proof.
  rewrite removeStep_eq, addStep_eq. cbn. destruct s as [rec paused test l cfg].
  cbn in *. do 2 f_equal.
  rewrite filter_app, filter_unknown_id by done.
  rewrite filter_cons_False, filter_nil; [by rewrite app_nil_r|].
  unfold id_is. rewrite added_step_id. rewrite bool_decide_eq_true_2 by done.
  simpl. tauto.
Qed.

Lemma addStep_then_removeStep_witness :
  Forall (λ step, id_is step (uuidv4 sample_session.2).1 = false)
    (steps sample_session.1)
  ∧ (removeStep "uuid-3" (addStep click_submit sample_session.1 sample_session.2).1
       (addStep click_submit sample_session.1 sample_session.2).2).1
    = sample_session.1.
Proof.
  assert (Hfresh : Forall (λ step, id_is step (uuidv4 sample_session.2).1 = false)
                     (steps sample_session.1)).
  { repeat constructor. }
  split; [exact Hfresh|].
  exact (f_equal fst (addStep_then_removeStep click_submit
                        sample_session.1 sample_session.2 Hfresh)).
Defined.

(** ** The lifecycle *)

(** X13: [startRecording] keeps nothing of the session it replaces but the
    healing configuration: two states with the same configuration give the
    same state, whatever their flags, tests and ledgers were. *)
Theorem startRecording_forgets (testName url : string) (s1 s2 : RecordingState)
    (w : World)
    (Hconfig : healingConfig s1 = healingConfig s2) :
  startRecording testName url s1 w = startRecording testName url s2 w.
Proof. unfold_eff. by rewrite Hconfig. Qed.

Lemma startRecording_forgets_witness :
  healingConfig sample_session.1 = healingConfig initialState
  ∧ startRecording "t2" "http://b" sample_session.1 sample_world
    = startRecording "t2" "http://b" initialState sample_world.
Proof.
  split; [reflexivity|].
  apply (startRecording_forgets "t2" "http://b" sample_session.1 initialState
           sample_world).
  reflexivity.
Defined.

(** X14: [stopRecording] absorbs an earlier pause and a repeated stop. *)
Theorem stopRecording_absorbs (s : RecordingState) (w : World) :
  run [Pause; Stop] s w = stopRecording s w
  ∧ run [Stop; Stop] s w = stopRecording s w
  ∧ run [Stop; Pause; Pause] s w = stopRecording s w.
Proof. by unfold_eff. Qed.

Lemma pause_flip (s : RecordingState) (w : World) :
  pauseRecording (pauseRecording s w).1 w = (s, w).
Proof. destruct s. unfold_eff. by rewrite negb_involutive. Qed.

(** X15: Pausing [n] times in a row gives back the starting state when [n] is
    even and the state after a single pause when [n] is odd. *)
Theorem pauseRecording_parity (n : nat) (s : RecordingState) (w : World) :
  run (replicate n Pause) s w
  = (if Nat.even n then s else (pauseRecording s w).1, w).
Proof.
  revert s. induction n as [|n IH]; intros s; [done|].
  rewrite replicate_S, run_cons. cbn [call].
  change (pauseRecording s w).2 with w. rewrite IH, Nat.even_succ.
  rewrite <- Nat.negb_even. destruct (Nat.even n); cbn [negb]; [done|].
  by rewrite pause_flip.
Qed.

(** X16: A command on the lifecycle flags and a command on the ledger or the
    healing configuration can be issued in either order. *)
Theorem flag_content_comm (c1 c2 : Command) (s : RecordingState) (w : World)
    (Hflag : flag_command c1 = true)
    (Hcontent : content_command c2 = true) :
  run [c1; c2] s w = run [c2; c1] s w.
Proof.
  destruct c1; try discriminate Hflag;
    destruct c2; try discriminate Hcontent; reflexivity.
Qed.

Lemma flag_content_comm_witness :
  flag_command Pause = true
  ∧ content_command (Add click_submit) = true
  ∧ run [Pause; Add click_submit] sample_session.1 sample_session.2
    = run [Add click_submit; Pause] sample_session.1 sample_session.2.
Proof.
  split; [reflexivity|]. split; [reflexivity|].
  apply (flag_content_comm Pause (Add click_submit)
           sample_session.1 sample_session.2); reflexivity.
Defined.

(** X17: [updateHealingConfig] can be swapped with any command that is not
    itself an [updateHealingConfig]. *)
Theorem updateHealingConfig_comm (config : Obj) (c : Command)
    (s : RecordingState) (w : World)
    (Hother : is_update_healing c = false) :
  run [UpdateHealing config; c] s w = run [c; UpdateHealing config] s w.
Proof. destruct c; try discriminate Hother; reflexivity. Qed.

Lemma updateHealingConfig_comm_witness :
  let config : Obj := {[ "maxRetryAttempts" := JsNumber 5%float ]} in
  is_update_healing (Start "t2" "http://b") = false
  ∧ run [UpdateHealing config; Start "t2" "http://b"] sample_session.1 sample_session.2
    = run [Start "t2" "http://b"; UpdateHealing config] sample_session.1 sample_session.2.
Proof.
  split; [reflexivity|].
  apply (updateHealingConfig_comm {[ "maxRetryAttempts" := JsNumber 5%float ]}
           (Start "t2" "http://b") sample_session.1 sample_session.2).
  reflexivity.
Defined.

(** ** The current test *)

Lemma call_currentTest (c : Command) (s : RecordingState) (w : World) :
  is_start c = false → currentTest (call c s w).1 = currentTest s.
Proof. by destruct c. Qed.

(** X18: Only [startRecording] touches the current test: through every sequence
    of other commands it stays the same test, with the same id, metadata
    and creation time. *)
Theorem currentTest_stable (cs : list Command) (s : RecordingState) (w : World)
    (Hcs : Forall (λ c, is_start c = false) cs) :
  currentTest (run cs s w).1 = currentTest s.
Proof.
  revert s w. induction Hcs as [|c cs Hc _ IH]; intros s w; [done|].
  by rewrite run_cons, IH, call_currentTest.
Qed.

Lemma currentTest_stable_witness :
  let cs := [ Add click_submit; Update "uuid-1" {[ "value" := JsString "x" ]};
              Pause; Clear; Stop ] in
  Forall (λ c, is_start c = false) cs
  ∧ currentTest (run cs sample_session.1 sample_session.2).1
    = currentTest sample_session.1.
Proof.
  assert (Hcs : Forall (λ c, is_start c = false)
                  [ Add click_submit; Update "uuid-1" {[ "value" := JsString "x" ]};
                    Pause; Clear; Stop ]).
  { repeat constructor. }
  split; [exact Hcs|].
  apply (currentTest_stable _ sample_session.1 sample_session.2 Hcs).
Defined.

Lemma call_test_shape (c : Command) (s : RecordingState) (w : World) :
  match currentTest s with
  | None => isRecording s = false
  | Some t =>
      GeneratedTest.steps t = [] ∧ GeneratedTest.assertions t = []
      ∧ GeneratedTest.description t
        = "Generated test for " +:+ Metadata.url (GeneratedTest.metadata t)
      ∧ Metadata.viewport (GeneratedTest.metadata t)
        = Viewport.mk 1920%float 1080%float
  end →
  match currentTest (call c s w).1 with
  | None => isRecording (call c s w).1 = false
  | Some t =>
      GeneratedTest.steps t = [] ∧ GeneratedTest.assertions t = []
      ∧ GeneratedTest.description t
        = "Generated test for " +:+ Metadata.url (GeneratedTest.metadata t)
      ∧ Metadata.viewport (GeneratedTest.metadata t)
        = Viewport.mk 1920%float 1080%float
  end.
Proof.
  intros Hshape. destruct c; cbn; try exact Hshape; try done.
  by destruct (currentTest s).
Qed.

(** X19: In every session run from [initialState]: as long as no test has been
    started the session is not recording; and the current test never
    receives the recorded steps or any assertion (its own [steps] and
    [assertions] stay empty while the ledger grows), keeps the description
    built from its url and keeps the 1920x1080 viewport. *)
Theorem currentTest_shape (cs : list Command) (w : World) :
  match currentTest (run cs initialState w).1 with
  | None => isRecording (run cs initialState w).1 = false
  | Some t =>
      GeneratedTest.steps t = [] ∧ GeneratedTest.assertions t = []
      ∧ GeneratedTest.description t
        = "Generated test for " +:+ Metadata.url (GeneratedTest.metadata t)
      ∧ Metadata.viewport (GeneratedTest.metadata t)
        = Viewport.mk 1920%float 1080%float
  end.
Proof.
  assert (Hinit : match currentTest initialState with
                  | None => isRecording initialState = false
                  | Some t =>
                      GeneratedTest.steps t = [] ∧ GeneratedTest.assertions t = []
                      ∧ GeneratedTest.description t
                        = "Generated test for "
                          +:+ Metadata.url (GeneratedTest.metadata t)
                      ∧ Metadata.viewport (GeneratedTest.metadata t)
                        = Viewport.mk 1920%float 1080%float
                  end) by reflexivity.
  revert Hinit. generalize initialState as s. revert w.
  induction cs as [|c cs IH]; intros w s Hshape; [exact Hshape|].
  rewrite run_cons. by apply IH, call_test_shape.
Qed.

(** ** Calls to the identifier source and the clock *)


(** ** The empty ledger *)

Lemma call_empty_ledger (c : Command) (s : RecordingState) (w : World) :
  shrinking_command c = true → steps s = [] → call c s w = (s, w).
Proof.
  intros Hc Hempty. destruct s as [rec paused test l cfg]. cbn in Hempty. subst l.
  by destruct c.
Qed.

Lemma run_empty_ledger (cs : list Command) (s : RecordingState) (w : World) :
  Forall (λ c, shrinking_command c = true) cs →
  steps s = [] → run cs s w = (s, w).
Proof.
  intros Hcs Hempty. induction Hcs as [|c cs Hc _ IH]; [done|].
  by rewrite run_cons, call_empty_ledger.
Qed.

(** X21: [clearSteps] empties the ledger and touches nothing else; on the empty
    ledger every sequence of [removeStep], [updateStep] and [clearSteps]
    calls leaves the state and the world as they are. *)
Theorem clearSteps_then_shrinking (cs : list Command) (s : RecordingState)
    (w : World)
    (Hcs : Forall (λ c, shrinking_command c = true) cs) :
  steps (clearSteps s w).1 = []
  ∧ isRecording (clearSteps s w).1 = isRecording s
  ∧ isPaused (clearSteps s w).1 = isPaused s
  ∧ currentTest (clearSteps s w).1 = currentTest s
  ∧ healingConfig (clearSteps s w).1 = healingConfig s
  ∧ run (Clear :: cs) s w = clearSteps s w.
Proof.
  repeat split. rewrite run_cons. cbn [call].
  by rewrite run_empty_ledger.
Qed.

Lemma clearSteps_then_shrinking_witness :
  let cs := [ Remove "uuid-1"; Update "uuid-2" {[ "value" := JsString "x" ]};
              Clear ] in
  Forall (λ c, shrinking_command c = true) cs
  ∧ run (Clear :: cs) sample_session.1 sample_session.2
    = clearSteps sample_session.1 sample_session.2.
Proof.
  assert (Hcs : Forall (λ c, shrinking_command c = true)
                  [ Remove "uuid-1"; Update "uuid-2" {[ "value" := JsString "x" ]};
                    Clear ]).
  { repeat constructor. }
  split; [exact Hcs|].
  apply (clearSteps_then_shrinking _ sample_session.1 sample_session.2 Hcs).
Defined.

(** ** The accessor *)


(** ** More on how the ledger commands compose *)

Lemma filter_fmap_update (id1 id2 : string) (updates : Obj) (l : list Obj) :
  updates !! "id" = None →
  filter (λ step, ¬ id_is step id2)
    ((λ step, if id_is step id1 then spread step updates else step) <$> l)
  = (λ step, if id_is step id1 then spread step updates else step)
      <$> filter (λ step, ¬ id_is step id2) l.
Proof.
  intros Hno. induction l as [|step l IH]; [done|].
  rewrite fmap_cons.
  assert (Hkeep : id_is (if id_is step id1 then spread step updates else step) id2
                  = id_is step id2).
  { destruct (id_is step id1); [by apply id_is_spread_keep|done]. }
  destruct (id_is step id2) eqn:Hstep.
  - rewrite !filter_cons_False; [done| |]; rewrite ?Hkeep, ?Hstep; simpl; tauto.
  - rewrite !filter_cons_True; [by rewrite fmap_cons, IH| |];
      rewrite ?Hkeep, ?Hstep; simpl; tauto.
Qed.

(** X23: An update that supplies no [id] field and a removal can be issued in
    either order, for the same id or for different ones. *)
Theorem updateStep_removeStep_comm (id1 id2 : string) (updates : Obj)
    (s : RecordingState) (w : World)
    (Hno : updates !! "id" = None) :
  run [Update id1 updates; Remove id2] s w
  = run [Remove id2; Update id1 updates] s w.
Proof.
  rewrite !run_cons. cbn [run call].
  rewrite !updateStep_eq, !removeStep_eq. cbn. unfold mret, Eff_ret.
  do 2 f_equal. by apply filter_fmap_update.
Qed.

Lemma updateStep_removeStep_comm_witness :
  let updates : Obj := {[ "value" := JsString "bob" ]} in
  updates !! "id" = None
  ∧ run [Update "uuid-2" updates; Remove "uuid-1"] sample_session.1 sample_session.2
    = run [Remove "uuid-1"; Update "uuid-2" updates] sample_session.1 sample_session.2.
Proof.
  split; [reflexivity|].
  apply (updateStep_removeStep_comm "uuid-2" "uuid-1" {[ "value" := JsString "bob" ]}
           sample_session.1 sample_session.2).
  reflexivity.
Defined.

(** X24: A removal of an id other than the one [addStep] is about to assign can
    come before or after that [addStep]: the states are the same. *)
Theorem addStep_removeStep_comm (stepData : Obj) (stepId : string)
    (s : RecordingState) (w : World)
    (Hother : (uuidv4 w).1 ≠ stepId) :
  run [Add stepData; Remove stepId] s w = run [Remove stepId; Add stepData] s w.
Proof.
  rewrite !run_cons. cbn [run call].
  rewrite !removeStep_eq, !addStep_eq. cbn. unfold mret, Eff_ret.
  do 2 f_equal. rewrite filter_app. f_equal.
  rewrite filter_cons_True; [done|].
  unfold id_is. rewrite added_step_id.
  rewrite bool_decide_eq_false_2 by exact Hother. simpl. tauto.
Qed.

Lemma addStep_removeStep_comm_witness :
  (uuidv4 sample_session.2).1 ≠ "uuid-1"
  ∧ run [Add click_submit; Remove "uuid-1"] sample_session.1 sample_session.2
    = run [Remove "uuid-1"; Add click_submit] sample_session.1 sample_session.2.
Proof.
  assert (Hother : (uuidv4 sample_session.2).1 ≠ "uuid-1").
  { vm_compute. discriminate. }
  split; [exact Hother|].
  apply (addStep_removeStep_comm click_submit "uuid-1"
           sample_session.1 sample_session.2 Hother).
Defined.

Lemma call_ledger_length (c : Command) (s : RecordingState) (w : World) :
  length (steps (call c s w).1) ≤ length (steps s) + step_adds c.
Proof.
  destruct c; cbn [call step_adds]; try (unfold_eff; lia).
  - rewrite addStep_steps, length_app. simpl. lia.
  - rewrite removeStep_steps. pose proof (length_filter
      (λ step : Obj, ¬ id_is step stepId) (steps s)). lia.
  - rewrite updateStep_eq. cbn. rewrite length_fmap. lia.
Qed.

(** X25: The ledger never holds more steps than it started with plus the number
    of [addStep] calls made since; no other command lengthens it. *)
Theorem ledger_length_bound (cs : list Command) (s : RecordingState) (w : World) :
  length (steps (run cs s w).1) ≤ length (steps s) + sum_list (step_adds <$> cs).
Proof.
  revert s w. induction cs as [|c cs IH]; intros s w; [simpl; lia|].
  rewrite run_cons, fmap_cons. simpl sum_list.
  pose proof (IH (call c s w).1 (call c s w).2) as Hrest.
  pose proof (call_ledger_length c s w) as Hhere. lia.
Qed.
